(** * EF2: two-asset efficient frontier and Sharpe search

    A shallow embedding of the numerical core of the notebook [EF2.ipynb]
    (the weight sweep, [p_returns], [p_var] and [max_sharpe]) together with
    the properties its specification states about it.

    The notebook computes with binary64 numbers.  The code is embedded once,
    over an interface [Scalar] that offers exactly the operations the source
    applies to its numbers, and is then read at two instances:

    - [float], the kernel's binary64 numbers: the numbers of the program,
      on which the embedding runs, with their rounding, infinities and NaN;
    - [R], the exact real numbers: the arithmetic the formulas are meant
      in.  A statement at this instance is marked as one of exact
      arithmetic and says nothing of the rounded values.

    The functions of the section [Notebook] give the values a run computes
    when it raises nothing; the exceptions of a run ([OverflowError] of a
    Python [**], [ValueError] of numpy) are those of the section
    [Calls]. *)

From Stdlib Require Import Floats.
From Stdlib Require Import ZArith List Bool Lia Lra Reals Psatz.
Import ListNotations.

Set Warnings "-inexact-float".

Set Implicit Arguments.

(** ** Scalars *)

(** The operations the notebook applies to numbers: promotion of an integer
    literal, [+], [-], [*], [/], [** 0.5], [==] and [>]. *)
Class Scalar (T : Type) : Type := {
  of_int : Z -> T;
  add : T -> T -> T;
  sub : T -> T -> T;
  mul : T -> T -> T;
  div : T -> T -> T;
  pow_half : T -> T;
  eqb : T -> T -> bool;
  gtb : T -> T -> bool
}.

(** Exact reals.  [pow_half] is the real square root, which the library
    extends by [0] below zero, where binary64 gives NaN: a statement over
    [R] that compares square roots carries the hypothesis that their
    arguments are not negative. *)
#[export] Instance R_scalar : Scalar R := {|
  of_int := IZR;
  add := Rplus;
  sub := Rminus;
  mul := Rmult;
  div := Rdiv;
  pow_half := R_sqrt.sqrt;
  eqb := fun x y => if Req_dec_T x y then true else false;
  gtb := fun x y => if Rlt_dec y x then true else false
|}.

(** binary64.  An integer literal is converted exactly (all literals of the
    notebook are far below 2^53); every operation rounds to nearest even;
    [==] and [>] are the IEEE comparisons, false on NaN.  [** 0.5] is the
    [pow] of the C library: [+inf] at [-inf], [+0] at either zero, NaN on
    NaN and on every other negative number, and elsewhere the square root,
    taken here as correctly rounded ([pow] may differ from it in the last
    place; no statement below rests on the last place of a root). *)
Definition float_of_int (z : Z) : float :=
  if (z <? 0)%Z
  then PrimFloat.opp (PrimFloat.of_uint63 (Uint63.of_Z (- z)))
  else PrimFloat.of_uint63 (Uint63.of_Z z).

Definition float_pow_half (x : float) : float :=
  if PrimFloat.eqb x neg_infinity then infinity
  else if PrimFloat.eqb x 0 then 0%float
  else PrimFloat.sqrt x.

#[export] Instance float_scalar : Scalar float := {|
  of_int := float_of_int;
  add := PrimFloat.add;
  sub := PrimFloat.sub;
  mul := PrimFloat.mul;
  div := PrimFloat.div;
  pow_half := float_pow_half;
  eqb := PrimFloat.eqb;
  gtb := fun x y => PrimFloat.ltb y x
|}.

(** ** Outcomes of a call *)

(** The exceptions the core can raise: numpy's [ValueError] (from
    [np.linspace] on a negative sample count, and from [@] on an array
    that is not of shape (n, 2)), and the [OverflowError] of [**] on a
    Python float. *)
Inductive exn : Type := ValueError | OverflowError.

Inductive outcome (A : Type) : Type :=
| Returned (a : A)
| Raised (e : exn).

Arguments Returned {A} a.
Arguments Raised {A} e.

Definition fails {A : Type} (o : outcome A) : Prop :=
  match o with Raised _ => True | Returned _ => False end.

(** ** The notebook *)

(** A row [[w, 1-w]] of the weights array. *)
Abbreviation row T := (T * T)%type (only parsing).

Section Notebook.

Context {T : Type} `{Scalar T}.

Definition zero : T := of_int 0.
Definition one : T := of_int 1.
Definition two : T := of_int 2.

(** The value of [x ** 2], taken as the product of [x] with itself,
    rounded once (a Python float raises instead when this overflows:
    [py_sq]). *)
Definition sq (x : T) : T := mul x x.

(** [y[-1] = stop]: the last sample is overwritten. *)
Fixpoint set_last (y : list T) (stop : T) : list T :=
  match y with
  | [] => []
  | [_] => [stop]
  | v :: y' => v :: set_last y' stop
  end.

(** [np.arange(0, num)] as scalars. *)
Definition arange (num : nat) : list T :=
  map (fun i => of_int (Z.of_nat i)) (seq 0 num).

(** [np.linspace(start, stop, num)] (library code, endpoint included):
    a negative [num] raises [ValueError]; otherwise the samples are
    [i * step + start] with [step = (stop - start) / (num - 1)], or
    [i / (num - 1) * (stop - start) + start] when [step == 0], the last
    one overwritten by [stop]; a single sample is [0 * (stop - start) +
    start]. *)
Definition linspace (start stop : T) (num : Z) : outcome (list T) :=
  if (num <? 0)%Z then Raised ValueError
  else
    let dv := (num - 1)%Z in
    let delta := sub stop start in
    let y := arange (Z.to_nat num) in
    let y :=
      if (0 <? dv)%Z
      then
        let step := div delta (of_int dv) in
        if eqb step zero
        then map (fun v => mul (div v (of_int dv)) delta) y
        else map (fun v => mul v step) y
      else map (fun v => mul v delta) y in
    let y := map (fun v => add v start) y in
    Returned (if (1 <? num)%Z then set_last y stop else y).

(** [weights = np.array([[w,1-w] for w in np.linspace(0,1,n_points)])] *)
Definition weights (n_points : Z) : outcome (list (row T)) :=
  match linspace zero one n_points with
  | Returned ws => Returned (map (fun w => (w, sub one w)) ws)
  | Raised e => Raised e
  end.

(** [p_returns]: the product of the weights array, of shape (n, 2), with
    the column [[r_A], [r_B]], one entry per row (the result is a column,
    read here as the list of its entries).  Each entry is rounded after
    every operation; a numpy built on a fused multiply-add rounds it as
    [p_returns_fused] does. *)
Definition p_returns (ws : list (row T)) (r_A r_B : T) : list T :=
  map (fun e => add (mul (fst e) r_A) (mul (snd e) r_B)) ws.

(** The local [var] of the loop of [p_var] for one row [e]; [np.prod]
    multiplies its six factors from the left. *)
Definition p_var_variance (var_A var_B rho_AB : T) (e : row T) : T :=
  add (add (mul (sq var_A) (sq (fst e))) (mul (sq var_B) (sq (snd e))))
      (mul (mul (mul (mul (mul two (fst e)) (snd e)) var_A) var_B) rho_AB).

(** [out.append(var**0.5)] *)
Definition p_var_row (var_A var_B rho_AB : T) (e : row T) : T :=
  pow_half (p_var_variance var_A var_B rho_AB e).

(** [p_var]: the loop over the rows; the result is again a column.  This
    is what a call returns when none of its squares overflows:
    [p_var_call]. *)
Definition p_var (ws : list (row T)) (std_A std_B rho_AB : T) : list T :=
  let var_A := sq std_A in
  let var_B := sq std_B in
  map (p_var_row var_A var_B rho_AB) ws.

(** The two locals of [max_sharpe].  [max_weights] starts as the integer
    [0] ([None] here, tested by [isinstance(max_weights, int)]) and
    [max_sharpe_ratio] as the number [0]. *)
Record best : Type := Best {
  max_weights : option (row T);
  max_sharpe_ratio : T
}.

(** [enumerate(weights)] *)
Definition enumerate {A : Type} (l : list A) : list (nat * A) :=
  combine (seq 0 (length l)) l.

(** One iteration of the loop of [max_sharpe].  The assignment
    [max_sharpe = sharpe] of the last branch binds a local that is never
    read, so only [max_weights] changes there. *)
Definition max_sharpe_step (r_f : T) (rets vol : list T)
    (st : best) (ie : nat * row T) : best :=
  let (i, e) := ie in
  let sharpe := div (sub (nth i rets zero) r_f) (nth i vol zero) in
  let mw :=
    match max_weights st with
    | None => Some e
    | Some _ => max_weights st
    end in
  let msr :=
    if eqb (max_sharpe_ratio st) zero then sharpe else max_sharpe_ratio st in
  let mw := if gtb sharpe msr then Some e else mw in
  Best mw msr.

(** [max_sharpe]: [A] and [B] are the pairs (expected return, standard
    deviation); the result is the pair [(max_weights, max_sharpe_ratio)]
    of a call that raises nothing ([max_sharpe_call]), on weights of shape
    (n, 2). *)
Definition max_sharpe (r_f : T) (ws : list (row T)) (A B : T * T)
    (rho_AB : T) : option (row T) * T :=
  let rets := p_returns ws (fst A) (fst B) in
  let vol := p_var ws (snd A) (snd B) rho_AB in
  let st :=
    fold_left (max_sharpe_step r_f rets vol) (enumerate ws)
              (Best None zero) in
  (max_weights st, max_sharpe_ratio st).

End Notebook.

Arguments best T : clear implicits.

(** ** What the specification asks for *)

Section Specification.

Context {T : Type} `{Scalar T}.

(** The textbook two-asset volatility of the specification (and of the
    notebook's own explanatory text): each standard deviation is squared
    once. *)
Definition textbook_volatility (std_A std_B rho_AB : T) (e : row T) : T :=
  pow_half
    (add (add (mul (sq std_A) (sq (fst e))) (mul (sq std_B) (sq (snd e))))
         (mul (mul (mul (mul (mul two (fst e)) (snd e)) std_A) std_B) rho_AB)).

(** The Sharpe ratio [max_sharpe] computes for a row [e]: its entry of
    [rets] less [r_f], over its entry of [vol]. *)
Definition sharpe_at (r_f : T) (A B : T * T) (rho_AB : T) (e : row T) : T :=
  div (sub (add (mul (fst e) (fst A)) (mul (snd e) (fst B))) r_f)
      (p_var_row (sq (snd A)) (sq (snd B)) rho_AB e).

(** The search the specification describes: a running best seeded from the
    first grid point and replaced on strict improvement only. *)
Fixpoint spec_scan (s : row T -> T) (cur : row T) (rest : list (row T))
    : row T :=
  match rest with
  | [] => cur
  | e :: rest' =>
      if gtb (s e) (s cur) then spec_scan s e rest' else spec_scan s cur rest'
  end.

Definition spec_max_sharpe (r_f : T) (ws : list (row T)) (A B : T * T)
    (rho_AB : T) : option (row T * T) :=
  match ws with
  | [] => None
  | e :: rest =>
      let s := sharpe_at r_f A B rho_AB in
      let b := spec_scan s e rest in
      Some (b, s b)
  end.

(** The row [max_sharpe] ends on once its ratio is stuck at [s0]: the last
    row whose Sharpe ratio exceeds [s0]. *)
Definition last_above (s : row T -> T) (s0 : T) (cur : row T)
    (rest : list (row T)) : row T :=
  fold_left (fun acc e => if gtb (s e) s0 then e else acc) rest cur.

End Specification.

(** The one law of numbers the loop of [max_sharpe] relies on: the initial
    test [max_sharpe_ratio == 0] holds. *)
Class ScalarZero (T : Type) `{Scalar T} : Prop :=
  eqb_zero_zero : eqb (zero (T:=T)) zero = true.

Arguments ScalarZero T {_}.

Section RowByRow.

Context {T : Type} `{Scalar T}.

(** [(rets[i]-r_f)/vol[i]] for the arrays [max_sharpe] builds from its
    arguments. *)
Definition sharpe_ratio (r_f : T) (ws : list (row T)) (A B : T * T)
    (rho_AB : T) (i : nat) : T :=
  div (sub (nth i (p_returns ws (fst A) (fst B)) zero) r_f)
      (nth i (p_var ws (snd A) (snd B) rho_AB) zero).

(** The loop of [max_sharpe] with [rets[i]] and [vol[i]] replaced by what
    they hold for the row at hand. *)
Definition scan_step (r_f : T) (A B : T * T) (rho_AB : T)
    (st : best T) (e : row T) : best T :=
  let sharpe := sharpe_at r_f A B rho_AB e in
  let mw :=
    match max_weights st with
    | None => Some e
    | Some _ => max_weights st
    end in
  let msr :=
    if eqb (max_sharpe_ratio st) zero then sharpe else max_sharpe_ratio st in
  Best (if gtb sharpe msr then Some e else mw) msr.


End RowByRow.

(** ** The notebook's scenario *)

(** [A], [B], [rho_AB] and the risk-free rate of the call
    [max_sharpe(0.03, weights, A, B, rho_AB)], as exact reals and as the
    binary64 numbers the literals denote. *)
Definition A_R : R * R := (15 / 100, 18 / 100)%R.
Definition B_R : R * R := (7 / 100, 10 / 100)%R.
Definition rho_R : R := (- (3 / 10))%R.
Definition r_f_R : R := (3 / 100)%R.

Definition A_f : float * float := (0.15, 0.18)%float.
Definition B_f : float * float := (0.07, 0.1)%float.
Definition rho_f : float := (-0.3)%float.
Definition r_f_f : float := 0.03%float.

(** The [i]-th sample of [np.linspace(0, 1, N)] in exact arithmetic. *)
Definition grid_point (N : Z) (i : nat) : R :=
  (IZR (Z.of_nat i) / IZR (N - 1))%R.

(** The 25-point weights array of the notebook in exact arithmetic. *)
Definition grid25 : list (R * R) :=
  map (fun i => (grid_point 25 i, (1 - grid_point 25 i)%R)) (seq 0 25).


(** A binary64 number that is neither NaN nor infinite. *)
Definition is_number (v : float) : bool :=
  negb (PrimFloat.is_nan v || PrimFloat.is_infinity v).

(** ** Calls that can raise *)

Definition bind {A B : Type} (o : outcome A) (k : A -> outcome B)
    : outcome B :=
  match o with
  | Returned a => k a
  | Raised e => Raised e
  end.

Notation "x <- o ;; k" := (bind o (fun x => k))
  (at level 61, o at next level, right associativity).

Section Calls.

(** A finite number whose square is not: the case in which [x ** 2]
    raises on a Python float. *)
Definition overflows (x : float) : bool :=
  PrimFloat.is_infinity (sq x) && negb (PrimFloat.is_infinity x).

(** [x ** 2] on a Python float. *)
Definition py_sq (x : float) : outcome float :=
  if overflows x then Raised OverflowError else Returned (sq x).

(** A call of [p_var] with Python floats for the standard deviations, as
    the notebook makes it, on weights of shape (n, 2): [std_A**2] and
    [std_B**2] are evaluated first, [var_A**2] and [var_B**2] in the body
    of the loop; the operations on the numpy numbers of the rows raise
    nothing. *)
Definition p_var_call (ws : list (row float)) (std_A std_B rho_AB : float)
    : outcome (list float) :=
  var_A <- py_sq std_A ;;
  var_B <- py_sq std_B ;;
  match ws with
  | [] => Returned []
  | _ :: _ =>
      _ <- py_sq var_A ;;
      _ <- py_sq var_B ;;
      Returned (p_var ws std_A std_B rho_AB)
  end.

(** The inputs on which a call of [p_var] raises: one of its four squares
    overflows, those of the loop being evaluated on a grid with rows
    only. *)
Definition p_var_overflows (ws : list (row float)) (std_A std_B : float)
    : bool :=
  overflows std_A || overflows std_B
  || match ws with
     | [] => false
     | _ :: _ => overflows (sq std_A) || overflows (sq std_B)
     end.

(** A call of [p_returns] on an array the notebook builds:
    [np.array([[w,1-w] for w in ...])] is of shape (n, 2) when it has rows
    and of shape (0,) when it has none, and [@] refuses the latter. *)
Definition p_returns_call (ws : list (row float)) (r_A r_B : float)
    : outcome (list float) :=
  match ws with
  | [] => Raised ValueError
  | _ :: _ => Returned (p_returns ws r_A r_B)
  end.

(** A call of [max_sharpe]: [p_returns] and [p_var] are called first; the
    division and the comparisons of the loop, on numpy numbers, raise
    nothing. *)
Definition max_sharpe_call (r_f : float) (ws : list (row float))
    (A B : float * float) (rho_AB : float)
    : outcome (option (row float) * float) :=
  _ <- p_returns_call ws (fst A) (fst B) ;;
  _ <- p_var_call ws (snd A) (snd B) rho_AB ;;
  Returned (max_sharpe r_f ws A B rho_AB).

(** [show_ef2]: the grid is rebuilt from [n_points].  The columns [vol]
    and [rets] are handed to [plt.plot(vol, rets, 'o-')]; the drawing
    itself is not modelled: the result is the pair of columns that is
    drawn. *)
Definition show_ef2 (n_points : Z) (r_A std_A r_B std_B rho_AB : float)
    : outcome (list float * list float) :=
  ws <- weights n_points ;;
  rets <- p_returns_call ws r_A r_B ;;
  vol <- p_var_call ws std_A std_B rho_AB ;;
  Returned (vol, rets).

End Calls.

(** ** The product of [p_returns] on a fused multiply-add *)



(** ** Checks on a binary64 grid *)



(** ** Signs of binary64 numbers *)

(** A number that is not below zero: NaN, a zero of either sign, or a
    positive number. *)
Definition SFnot_negative (f : spec_float) : bool :=
  match f with
  | S754_infinity s | S754_finite s _ _ => negb s
  | _ => true
  end.

(** * Properties *)

#[export] Instance R_scalar_zero : ScalarZero R.
Proof.
  unfold ScalarZero; simpl.
  destruct (Req_dec_T _ _) as [_ | n]; [reflexivity | now elim n].
Qed.

#[export] Instance float_scalar_zero : ScalarZero float.
Proof. reflexivity. Qed.

(** ** The loops, row by row *)

Section Loops.

Context {T : Type} `{Scalar T}.

Lemma p_returns_length (ws : list (row T)) (r_A r_B : T) :
  length (p_returns ws r_A r_B) = length ws.
Proof. apply length_map. Qed.

Lemma p_var_length (ws : list (row T)) (std_A std_B rho_AB : T) :
  length (p_var ws std_A std_B rho_AB) = length ws.
Proof. apply length_map. Qed.


Lemma p_var_nth (ws : list (row T)) (std_A std_B rho_AB : T) (i : nat)
    (e : row T) :
  nth_error ws i = Some e ->
  nth_error (p_var ws std_A std_B rho_AB) i
  = Some (pow_half (p_var_variance (sq std_A) (sq std_B) rho_AB e)).
Proof.
  intros Hi. unfold p_var. now rewrite nth_error_map, Hi.
Qed.

Lemma nth_map_app {X : Type} (f : X -> T) (pre : list X) (e : X)
    (post : list X) :
  nth (length pre) (map f (pre ++ e :: post)) zero = f e.
Proof.
  rewrite map_app, app_nth2; rewrite length_map; [| lia].
  now rewrite Nat.sub_diag.
Qed.

Lemma max_sharpe_loop_rows (r_f : T) (A B : T * T) (rho_AB : T)
    (pre post : list (row T)) (st : best T) :
  fold_left
    (max_sharpe_step r_f (p_returns (pre ++ post) (fst A) (fst B))
                     (p_var (pre ++ post) (snd A) (snd B) rho_AB))
    (combine (seq (length pre) (length post)) post) st
  = fold_left (scan_step r_f A B rho_AB) post st.
Proof.
  revert pre st. induction post as [| e post IH]; intros pre st;
    [reflexivity |].
  simpl combine. simpl fold_left.
  replace (pre ++ e :: post) with ((pre ++ [e]) ++ post)
    by now rewrite <- app_assoc.
  replace (S (length pre)) with (length (pre ++ [e]))
    by (rewrite length_app; simpl; lia).
  rewrite IH. f_equal.
  rewrite <- app_assoc. simpl app.
  unfold max_sharpe_step, scan_step, sharpe_at, p_returns, p_var, p_var_row.
  now rewrite !nth_map_app.
Qed.

Lemma max_sharpe_rows (r_f : T) (ws : list (row T)) (A B : T * T)
    (rho_AB : T) :
  max_sharpe r_f ws A B rho_AB
  = let st := fold_left (scan_step r_f A B rho_AB) ws (Best None zero) in
    (max_weights st, max_sharpe_ratio st).
Proof.
  unfold max_sharpe, enumerate.
  now rewrite (max_sharpe_loop_rows r_f A B rho_AB [] ws).
Qed.

(** Once [max_sharpe_ratio] holds a value that does not compare equal to
    [0], no iteration changes it, and [max_weights] follows the last row
    above it. *)
Lemma scan_stuck (r_f : T) (A B : T * T) (rho_AB : T) (s0 : T)
    (rest : list (row T)) (cur : row T) :
  eqb s0 zero = false ->
  fold_left (scan_step r_f A B rho_AB) rest (Best (Some cur) s0)
  = Best (Some (last_above (sharpe_at r_f A B rho_AB) s0 cur rest)) s0.
Proof.
  intros Hs0. revert cur. induction rest as [| e rest IH]; intros cur.
  - reflexivity.
  - simpl fold_left. unfold scan_step at 2. simpl max_weights.
    simpl max_sharpe_ratio. rewrite Hs0.
    unfold last_above. simpl fold_left.
    destruct (gtb (sharpe_at r_f A B rho_AB e) s0); apply IH.
Qed.

Lemma max_sharpe_seeded `{!ScalarZero T} (r_f : T) (e : row T)
    (rest : list (row T)) (A B : T * T) (rho_AB : T) :
  let s := sharpe_at r_f A B rho_AB in
  eqb (s e) zero = false ->
  max_sharpe r_f (e :: rest) A B rho_AB
  = (Some (last_above s (s e) e rest), s e).
Proof.
  intros s Hs0. rewrite max_sharpe_rows. simpl fold_left.
  unfold scan_step at 2. simpl max_weights. simpl max_sharpe_ratio.
  rewrite eqb_zero_zero.
  replace (if gtb (sharpe_at r_f A B rho_AB e) (sharpe_at r_f A B rho_AB e)
           then Some e else Some e) with (Some e)
    by now destruct (gtb _ _).
  fold s. now rewrite scan_stuck by exact Hs0.
Qed.

End Loops.

(** ** The last row above a ratio *)

Section LastAbove.

Context {T : Type} `{Scalar T}.

Variables (s : row T -> T) (s0 : T).

Lemma last_above_stays (cur : row T) (rest : list (row T)) :
  Forall (fun x => gtb (s x) s0 = false) rest ->
  last_above s s0 cur rest = cur.
Proof.
  intros Hall. revert cur.
  induction Hall as [| x rest Hx _ IH]; intros cur; [reflexivity |].
  unfold last_above. simpl fold_left. rewrite Hx. apply IH.
Qed.

Lemma last_above_last (cur x : row T) (pre post : list (row T)) :
  gtb (s x) s0 = true ->
  Forall (fun y => gtb (s y) s0 = false) post ->
  last_above s s0 cur (pre ++ x :: post) = x.
Proof.
  intros Hx Hpost. unfold last_above.
  rewrite fold_left_app. simpl fold_left. rewrite Hx.
  now apply last_above_stays.
Qed.

End LastAbove.

(** ** binary64 facts *)

Section Binary64.

Lemma float_is_nan_SF (x : float) :
  Prim2SF x = S754_nan -> PrimFloat.is_nan x = true.
Proof.
  intros Hx. unfold PrimFloat.is_nan. now rewrite FloatAxioms.eqb_spec, Hx.
Qed.

Lemma float_is_infinity_SF (x : float) (s : bool) :
  Prim2SF x = S754_infinity s -> PrimFloat.is_infinity x = true.
Proof.
  intros Hx. unfold PrimFloat.is_infinity.
  now rewrite FloatAxioms.eqb_spec, FloatAxioms.abs_spec, Hx.
Qed.

Lemma float_eqb_zero_SF (v : float) :
  PrimFloat.eqb v 0 = true -> exists s, Prim2SF v = S754_zero s.
Proof.
  rewrite FloatAxioms.eqb_spec. change (Prim2SF 0) with (S754_zero false).
  destruct (Prim2SF v) as [s | s | | s m e]; try discriminate.
  - now exists s.
  - destruct s; discriminate.
  - destruct s; discriminate.
Qed.

(** Dividing by a zero gives an infinity or NaN, whatever the dividend. *)
Lemma float_div_zero (x v : float) :
  PrimFloat.eqb v 0 = true ->
  PrimFloat.is_infinity (x / v) || PrimFloat.is_nan (x / v) = true.
Proof.
  intros Hv. destruct (@float_eqb_zero_SF v Hv) as [s Hs].
  pose proof (FloatAxioms.div_spec x v) as Hd. rewrite Hs in Hd.
  unfold SF64div, SFdiv in Hd.
  destruct (Prim2SF x) as [sx | sx | | sx mx ex].
  - rewrite (@float_is_nan_SF (x / v) Hd). apply orb_true_r.
  - now rewrite (@float_is_infinity_SF (x / v) _ Hd).
  - rewrite (@float_is_nan_SF (x / v) Hd). apply orb_true_r.
  - now rewrite (@float_is_infinity_SF (x / v) _ Hd).
Qed.

(** The square root of a number below zero is NaN. *)
Lemma float_sqrt_negative (x : float) :
  PrimFloat.ltb x 0 = true -> PrimFloat.is_nan (PrimFloat.sqrt x) = true.
Proof.
  rewrite FloatAxioms.ltb_spec. change (Prim2SF 0) with (S754_zero false).
  intros Hx. apply float_is_nan_SF. rewrite FloatAxioms.sqrt_spec.
  unfold SF64sqrt, SFsqrt.
  destruct (Prim2SF x) as [s | s | | s m e]; try discriminate.
  - destruct s; [reflexivity | discriminate].
  - destruct s; [reflexivity | discriminate].
Qed.

(** Neither an infinity nor NaN compares equal to [0]. *)
Lemma float_inf_nan_nonzero (x : float) :
  PrimFloat.is_infinity x || PrimFloat.is_nan x = true ->
  PrimFloat.eqb x 0 = false.
Proof.
  unfold PrimFloat.is_infinity, PrimFloat.is_nan.
  rewrite !FloatAxioms.eqb_spec, FloatAxioms.abs_spec.
  change (Prim2SF 0) with (S754_zero false).
  change (Prim2SF infinity) with (S754_infinity false).
  destruct (Prim2SF x) as [s | s | | s m e]; try reflexivity.
  - discriminate.
  - now destruct s.
  - now destruct s.
Qed.

Lemma float_nan_SF (x : float) :
  PrimFloat.is_nan x = true -> Prim2SF x = S754_nan.
Proof.
  unfold PrimFloat.is_nan. rewrite FloatAxioms.eqb_spec.
  destruct (Prim2SF x) as [s | s | | s m e]; try reflexivity.
  - discriminate.
  - destruct s; discriminate.
  - unfold SFeqb, SFcompare.
    rewrite Z.compare_refl, Pos.compare_cont_refl.
    destruct s; discriminate.
Qed.

(** Nothing compares greater than NaN. *)
Lemma float_nan_not_below (x y : float) :
  PrimFloat.is_nan x = true -> PrimFloat.ltb x y = false.
Proof.
  intros Hx. rewrite FloatAxioms.ltb_spec, (@float_nan_SF x Hx).
  reflexivity.
Qed.


(** [** 0.5] of a negative number other than [-inf] is NaN. *)
Lemma float_pow_half_negative (x : float) :
  PrimFloat.ltb x 0 = true -> PrimFloat.is_infinity x = false ->
  PrimFloat.is_nan (float_pow_half x) = true.
Proof.
  intros Hlt Hinf. unfold float_pow_half.
  assert (H1 : PrimFloat.eqb x neg_infinity = false).
  { revert Hlt Hinf. unfold PrimFloat.is_infinity.
    rewrite !FloatAxioms.eqb_spec, FloatAxioms.ltb_spec, FloatAxioms.abs_spec.
    change (Prim2SF neg_infinity) with (S754_infinity true).
    change (Prim2SF infinity) with (S754_infinity false).
    change (Prim2SF 0) with (S754_zero false).
    destruct (Prim2SF x) as [s | s | | s m e]; try destruct s; cbv;
      congruence. }
  assert (H2 : PrimFloat.eqb x 0 = false).
  { revert Hlt. rewrite FloatAxioms.eqb_spec, FloatAxioms.ltb_spec.
    change (Prim2SF 0) with (S754_zero false).
    destruct (Prim2SF x) as [s | s | | s m e]; try destruct s; cbv;
      congruence. }
  rewrite H1, H2. now apply float_sqrt_negative.
Qed.

(** An infinity that is not below zero is [+inf]. *)
Lemma float_infinity_not_negative_SF (x : float) :
  PrimFloat.is_infinity x = true -> PrimFloat.ltb x 0 = false ->
  Prim2SF x = S754_infinity false.
Proof.
  unfold PrimFloat.is_infinity.
  rewrite FloatAxioms.eqb_spec, FloatAxioms.ltb_spec, FloatAxioms.abs_spec.
  change (Prim2SF infinity) with (S754_infinity false).
  change (Prim2SF 0) with (S754_zero false).
  destruct (Prim2SF x) as [s | s | | s m e]; try destruct s; cbv;
    congruence.
Qed.

(** Nothing compares greater than [+inf]. *)
Lemma float_infinity_not_below (x y : float) :
  Prim2SF x = S754_infinity false -> PrimFloat.ltb x y = false.
Proof.
  intros Hx. rewrite FloatAxioms.ltb_spec, Hx.
  destruct (Prim2SF y) as [s | s | | s m e]; try destruct s; reflexivity.
Qed.

(** A quotient by zero that is not below zero, [+inf] or NaN, has nothing
    above it. *)
Lemma float_div_zero_top (x v y : float) :
  PrimFloat.eqb v 0 = true -> PrimFloat.ltb (x / v) 0 = false ->
  PrimFloat.ltb (x / v) y = false.
Proof.
  intros Hv Hs. pose proof (float_div_zero x Hv) as Hd.
  apply orb_true_iff in Hd. destruct Hd as [Hi | Hn].
  - apply float_infinity_not_below.
    now apply float_infinity_not_negative_SF.
  - now apply float_nan_not_below.
Qed.

(** What compares greater than some number is not NaN. *)
Lemma float_above_not_nan (x y : float) :
  PrimFloat.ltb y x = true -> PrimFloat.is_nan x = false.
Proof.
  rewrite FloatAxioms.ltb_spec. intros H.
  destruct (PrimFloat.is_nan x) eqn:Hn; [| reflexivity].
  rewrite (float_nan_SF x Hn) in H.
  destruct (Prim2SF y) as [s | s | | s m e]; try destruct s; discriminate.
Qed.

End Binary64.

(** ** Signs in binary64 *)

Section Signs.

Lemma float_not_negative_SF (x : float) :
  PrimFloat.ltb x 0 = false <-> SFnot_negative (Prim2SF x) = true.
Proof.
  rewrite FloatAxioms.ltb_spec. change (Prim2SF 0) with (S754_zero false).
  destruct (Prim2SF x) as [s | s | | s m e];
    try destruct s; cbv; split; intros; congruence.
Qed.

Lemma binary_round_aux_not_negative (m e : Z) (l : location) :
  SFnot_negative (binary_round_aux prec emax false m e l) = true.
Proof.
  unfold binary_round_aux.
  destruct (shr_fexp prec emax m e l) as [mrs' e'].
  destruct (shr_fexp prec emax _ e' loc_Exact) as [mrs'' e''].
  destruct (shr_m mrs''); [reflexivity | | reflexivity].
  destruct (Z.leb e'' (emax - prec)); reflexivity.
Qed.

Lemma SFmul_not_negative (x y : spec_float) :
  SFnot_negative x = true -> SFnot_negative y = true ->
  SFnot_negative (SF64mul x y) = true.
Proof.
  unfold SF64mul, SFmul.
  destruct x as [sx | sx | | sx mx ex], y as [sy | sy | | sy my ey];
    simpl; intros Hx Hy; try reflexivity;
    try (apply negb_true_iff in Hx; subst sx);
    try (apply negb_true_iff in Hy; subst sy); try reflexivity.
  apply binary_round_aux_not_negative.
Qed.

Lemma SFadd_not_negative (x y : spec_float) :
  SFnot_negative x = true -> SFnot_negative y = true ->
  SFnot_negative (SF64add x y) = true.
Proof.
  unfold SF64add, SFadd.
  destruct x as [sx | sx | | sx mx ex], y as [sy | sy | | sy my ey];
    simpl; intros Hx Hy; try reflexivity;
    try (apply negb_true_iff in Hx; subst sx);
    try (apply negb_true_iff in Hy; subst sy); try reflexivity.
  - destruct sx, sy; reflexivity.
  - unfold binary_normalize, cond_Zopp.
    generalize (fst (shl_align mx ex (Z.min ex ey)))
               (fst (shl_align my ey (Z.min ex ey))).
    intros px py. simpl Z.add. unfold binary_round.
    destruct (shl_align _ _ _) as [mz ez].
    apply binary_round_aux_not_negative.
Qed.

Lemma float_mul_not_negative (x y : float) :
  PrimFloat.ltb x 0 = false -> PrimFloat.ltb y 0 = false ->
  PrimFloat.ltb (x * y) 0 = false.
Proof.
  rewrite !float_not_negative_SF, FloatAxioms.mul_spec.
  apply SFmul_not_negative.
Qed.

Lemma float_add_not_negative (x y : float) :
  PrimFloat.ltb x 0 = false -> PrimFloat.ltb y 0 = false ->
  PrimFloat.ltb (x + y) 0 = false.
Proof.
  rewrite !float_not_negative_SF, FloatAxioms.add_spec.
  apply SFadd_not_negative.
Qed.

Lemma float_sq_not_negative (x : float) : PrimFloat.ltb (sq x) 0 = false.
Proof.
  apply float_not_negative_SF. unfold sq. simpl mul.
  rewrite FloatAxioms.mul_spec. unfold SF64mul, SFmul.
  destruct (Prim2SF x) as [s | s | | s m e]; simpl; try reflexivity.
  - now destruct s.
  - rewrite xorb_nilpotent. apply binary_round_aux_not_negative.
Qed.

End Signs.

(** ** When a call raises *)

Section Raising.

Lemma p_var_call_cases (ws : list (row float)) (std_A std_B rho : float) :
  p_var_call ws std_A std_B rho
  = if p_var_overflows ws std_A std_B then Raised OverflowError
    else Returned (p_var ws std_A std_B rho).
Proof.
  unfold p_var_call, p_var_overflows, py_sq, bind.
  destruct (overflows std_A); [reflexivity |].
  destruct (overflows std_B); [reflexivity |].
  destruct ws as [| e ws]; [reflexivity |].
  destruct (overflows (sq std_A)); [reflexivity |].
  destruct (overflows (sq std_B)); reflexivity.
Qed.

Lemma max_sharpe_call_cases (r_f : float) (e : row float)
    (rest : list (row float)) (A B : float * float) (rho : float) :
  max_sharpe_call r_f (e :: rest) A B rho
  = if p_var_overflows (e :: rest) (snd A) (snd B) then Raised OverflowError
    else Returned (max_sharpe r_f (e :: rest) A B rho).
Proof.
  unfold max_sharpe_call, p_returns_call, bind at 1.
  rewrite p_var_call_cases.
  now destruct (p_var_overflows (e :: rest) (snd A) (snd B)).
Qed.

End Raising.

(** ** Real-number facts *)

Section Reals.

Local Open Scope R_scope.

Lemma R_gtb_true (x y : R) : y < x -> gtb x y = true.
Proof. intros Hlt. simpl. now destruct (Rlt_dec y x). Qed.

Lemma R_gtb_false (x y : R) : ~ y < x -> gtb x y = false.
Proof. intros Hlt. simpl. now destruct (Rlt_dec y x). Qed.

Lemma R_eqb_false (x y : R) : x <> y -> eqb x y = false.
Proof. intros Hne. simpl. now destruct (Req_dec_T x y). Qed.

Lemma sqrt_of_square (v a : R) : 0 <= a -> v = a * a -> sqrt v = a.
Proof. intros Ha ->. now apply sqrt_square. Qed.

(** Comparing a quotient by a square root with a bound, by squares. *)
Lemma above_by_squares (s a v : R) :
  0 <= s -> 0 < a -> 0 < v -> s * s * v < a * a -> s < a / sqrt v.
Proof.
  intros Hs Ha Hv Hsq.
  pose proof (sqrt_lt_R0 v Hv) as Hr.
  pose proof (sqrt_sqrt v (Rlt_le _ _ Hv)) as Hrr.
  apply Rmult_lt_reg_r with (sqrt v); [exact Hr |].
  unfold Rdiv. rewrite Rmult_assoc, Rinv_l, Rmult_1_r by lra.
  assert (H0 : 0 <= s * sqrt v) by (apply Rmult_le_pos; lra).
  destruct (Rlt_le_dec (s * sqrt v) a) as [Hlt | Hge]; [exact Hlt |].
  assert (Hp : a * a <= s * sqrt v * (s * sqrt v))
    by (apply Rmult_le_compat; lra).
  replace (s * sqrt v * (s * sqrt v)) with (s * s * (sqrt v * sqrt v)) in Hp
    by ring.
  rewrite Hrr in Hp. lra.
Qed.

Lemma not_above_by_squares (s a v : R) :
  0 <= s -> 0 < v -> a * a <= s * s * v -> ~ s < a / sqrt v.
Proof.
  intros Hs Hv Hsq Hlt.
  pose proof (sqrt_lt_R0 v Hv) as Hr.
  pose proof (sqrt_sqrt v (Rlt_le _ _ Hv)) as Hrr.
  apply Rmult_lt_compat_r with (r := sqrt v) in Hlt; [| exact Hr].
  unfold Rdiv in Hlt. rewrite Rmult_assoc, Rinv_l, Rmult_1_r in Hlt by lra.
  assert (H0 : 0 <= s * sqrt v) by (apply Rmult_le_pos; lra).
  assert (Hp : s * sqrt v * (s * sqrt v) < a * a)
    by (apply Rmult_le_0_lt_compat; lra).
  replace (s * sqrt v * (s * sqrt v)) with (s * s * (sqrt v * sqrt v)) in Hp
    by ring.
  rewrite Hrr in Hp. lra.
Qed.

(** Comparing two such quotients, by squares. *)
Lemma ratio_lt_by_squares (a1 v1 a2 v2 : R) :
  0 <= a1 -> 0 < a2 -> 0 < v1 -> 0 < v2 ->
  a1 * a1 * v2 < a2 * a2 * v1 ->
  a1 / sqrt v1 < a2 / sqrt v2.
Proof.
  intros Ha1 Ha2 Hv1 Hv2 Hsq.
  pose proof (sqrt_lt_R0 v1 Hv1) as Hr.
  pose proof (sqrt_sqrt v1 (Rlt_le _ _ Hv1)) as Hrr.
  apply above_by_squares; try assumption.
  - apply Rmult_le_pos; [exact Ha1 |]. now apply Rlt_le, Rinv_0_lt_compat.
  - replace (a1 / sqrt v1 * (a1 / sqrt v1) * v2)
      with (a1 * a1 * v2 / (sqrt v1 * sqrt v1)) by (field; lra).
    rewrite Hrr. apply Rmult_lt_reg_r with v1; [exact Hv1 |].
    unfold Rdiv. rewrite Rmult_assoc, Rinv_l, Rmult_1_r by lra. exact Hsq.
Qed.

End Reals.

(** ** The rows of the grid, for any numbers *)

Section GridRows.

Context {T : Type} `{Scalar T}.





End GridRows.

(** ** The binary64 grids of up to 500 points *)

Section Binary64Grid.





End Binary64Grid.

(** ** The weight grid *)

Section WeightGrid.

Local Open Scope R_scope.

Lemma set_last_snoc (l : list R) (x s : R) :
  set_last (l ++ [x]) s = l ++ [s].
Proof.
  induction l as [| v l IH]; [reflexivity |].
  simpl app. simpl set_last. rewrite IH.
  destruct l; reflexivity.
Qed.

(** In exact arithmetic the overwritten last sample is the value the
    formula gives anyway, so the samples are uniformly [i / (N - 1)]. *)
Lemma linspace_R (N : Z) :
  (2 <= N)%Z ->
  linspace (T:=R) zero one N
  = Returned (map (grid_point N) (seq 0 (Z.to_nat N))).
Proof.
  intros HN. unfold linspace.
  destruct (Z.ltb_spec N 0); [lia |].
  destruct (Z.ltb_spec 0 (N - 1)); [| lia].
  destruct (Z.ltb_spec 1 N); [| lia].
  assert (HNR : IZR (N - 1) <> 0) by (apply not_0_IZR; lia).
  assert (Hstep : eqb (div (sub (one (T:=R)) zero) (of_int (N - 1))) zero
                  = false).
  { apply R_eqb_false. unfold one, zero. simpl. unfold Rdiv. intros Heq.
    apply Rmult_integral in Heq. destruct Heq as [Heq | Heq]; [lra |].
    now apply (Rinv_neq_0_compat _ HNR). }
  cbv zeta. rewrite Hstep. f_equal.
  destruct (Z.to_nat N) as [| m] eqn:Hm; [lia |].
  unfold arange. rewrite seq_S, !map_app. simpl map.
  rewrite set_last_snoc. f_equal.
  - rewrite !map_map. apply map_ext. intros i. unfold grid_point. simpl.
    unfold zero, one. simpl. field. exact HNR.
  - f_equal. unfold grid_point. simpl Nat.add.
    replace (Z.of_nat m) with (N - 1)%Z by lia.
    unfold one. simpl. field. exact HNR.
Qed.

Lemma weights_R (N : Z) :
  (2 <= N)%Z ->
  weights (T:=R) N
  = Returned (map (fun i => (grid_point N i, 1 - grid_point N i))
                  (seq 0 (Z.to_nat N))).
Proof.
  intros HN. unfold weights. rewrite (linspace_R HN), map_map. reflexivity.
Qed.

Lemma weights_R_nth (N : Z) (i : nat) :
  (2 <= N)%Z -> (i < Z.to_nat N)%nat ->
  nth_error (map (fun i => (grid_point N i, 1 - grid_point N i))
                 (seq 0 (Z.to_nat N))) i
  = Some (grid_point N i, 1 - grid_point N i).
Proof.
  intros HN Hi. rewrite nth_error_map, nth_error_seq.
  destruct (Nat.ltb_spec i (Z.to_nat N)); [reflexivity | lia].
Qed.








(** C5 (as stated): a grid of fewer than two points is refused.  The code
    returns the one-point grid for N = 1 and the empty grid for N = 0. *)
Lemma weights_one_point_returns :
  weights (T:=float) 1 = Returned [(0, 1)%float] /\
  weights (T:=float) 0 = Returned [] /\
  ~ fails (weights (T:=float) 1) /\
  ~ fails (weights (T:=float) 0).
Proof. repeat split; try reflexivity; intros []. Qed.

(** C5 (amended): below two points the generator fails exactly when N is
    negative (the [ValueError] of [np.linspace]); N = 0 gives the empty
    grid and N = 1 the single pair (0,1). *)
Theorem weights_below_two_points (N : Z) :
  (N < 2)%Z ->
  (fails (weights (T:=R) N) <-> (N < 0)%Z) /\
  ((N < 0)%Z -> weights (T:=R) N = Raised ValueError) /\
  (N = 0%Z -> weights (T:=R) N = Returned []) /\
  (N = 1%Z -> weights (T:=R) N = Returned [(0, 1)]).
Proof.
  intros HN. split; [| split; [| split]].
  - unfold weights, linspace. destruct (Z.ltb_spec N 0); simpl; [tauto |].
    split; [tauto | lia].
  - intros Hneg. unfold weights, linspace.
    destruct (Z.ltb_spec N 0); [reflexivity | lia].
  - intros ->. reflexivity.
  - intros ->. unfold weights, linspace. simpl. unfold zero, one. simpl.
    do 3 f_equal; lra.
Qed.

Lemma weights_below_two_points_witness :
  (fails (weights (T:=R) 1) <-> (1 < 0)%Z) /\
  ((1 < 0)%Z -> weights (T:=R) 1 = Raised ValueError) /\
  (1%Z = 0%Z -> weights (T:=R) 1 = Returned []) /\
  (1%Z = 1%Z -> weights (T:=R) 1 = Returned [(0, 1)]).
Proof. apply (@weights_below_two_points 1). lia. Defined.

End WeightGrid.

(** ** Portfolio returns *)

Section Returns.

Local Open Scope R_scope.




End Returns.

(** ** Portfolio volatility *)

Section Volatility.

Local Open Scope R_scope.

(** What [p_var] computes, in exact arithmetic: the standard deviations
    enter the two variance terms to the fourth power and the cross term
    squared. *)
Lemma p_var_row_R (std_A std_B rho : R) (e : R * R) :
  p_var_row (sq std_A) (sq std_B) rho e
  = sqrt (std_A ^ 4 * fst e ^ 2 + std_B ^ 4 * snd e ^ 2
          + 2 * fst e * snd e * std_A ^ 2 * std_B ^ 2 * rho).
Proof.
  unfold p_var_row, p_var_variance, sq, two. simpl. f_equal. ring.
Qed.

(** C1 (the code at a failing input): for the pure-A portfolio (1,0) of
    the notebook's assets the textbook volatility is std_A = 0.18, but
    [p_var] returns std_A^2 = 0.0324, in exact arithmetic and in binary64
    alike; in general [p_var] takes the root of
    std_A^4 w_A^2 + std_B^4 w_B^2 + 2 w_A w_B std_A^2 std_B^2 rho. *)
Theorem p_var_squares_variances_twice :
  p_var [(1, 0)] (18 / 100) (10 / 100) (- (3 / 10)) = [324 / 10000] /\
  map (textbook_volatility (18 / 100) (10 / 100) (- (3 / 10))) [(1, 0)]
  = [18 / 100] /\
  p_var [(1, 0)%float] 0.18%float 0.1%float (-0.3)%float = [0.0324%float] /\
  map (textbook_volatility 0.18%float 0.1%float (-0.3)%float) [(1, 0)%float]
  = [0.18%float] /\
  (forall ws std_A std_B rho i e,
     nth_error ws i = Some e ->
     nth_error (p_var ws std_A std_B rho) i
     = Some (sqrt (std_A ^ 4 * fst e ^ 2 + std_B ^ 4 * snd e ^ 2
                   + 2 * fst e * snd e * std_A ^ 2 * std_B ^ 2 * rho))).
Proof.
  split; [| split; [| split; [| split]]].
  - unfold p_var. cbn [map]. rewrite p_var_row_R. f_equal.
    apply sqrt_of_square; simpl; lra.
  - unfold textbook_volatility, sq, two. simpl. f_equal.
    apply sqrt_of_square; lra.
  - reflexivity.
  - reflexivity.
  - intros ws std_A std_B rho i e Hi.
    rewrite (p_var_nth ws std_A std_B rho i Hi). f_equal.
    apply p_var_row_R.
Qed.




End Volatility.

(** ** Calls of [p_var] *)

Section VolatilityCalls.

Lemma p_var_variance_not_negative (std_A std_B rho : float)
    (e : float * float) :
  PrimFloat.ltb (fst e) 0 = false -> PrimFloat.ltb (snd e) 0 = false ->
  PrimFloat.ltb rho 0 = false ->
  PrimFloat.ltb (p_var_variance (sq std_A) (sq std_B) rho e) 0 = false.
Proof.
  intros H0 H1 Hrho. unfold p_var_variance.
  change (@add float _) with PrimFloat.add.
  change (@mul float _) with PrimFloat.mul.
  repeat first [ assumption
               | reflexivity
               | apply float_sq_not_negative
               | apply float_add_not_negative
               | apply float_mul_not_negative ].
Qed.

(** C6 (as stated): a correlation of 1.5, and any input giving a negative
    variance, is refused.  On the notebook's grid with rho = 1.5 the call
    returns 25 ordinary numbers, and for rho = -2 it returns NaN. *)
Lemma p_var_rho_out_of_range_returns :
  exists g vol,
    weights 25 = Returned g /\
    p_var_call g 0.18%float 0.1%float 1.5%float = Returned vol /\
    length vol = 25%nat /\
    forallb is_number vol = true /\
    PrimFloat.ltb
      (p_var_variance (sq 1%float) (sq 1%float) (-2)%float (0.5, 0.5)%float)
      0 = true /\
    p_var_call [(0.5, 0.5)%float] 1%float 1%float (-2)%float
    = Returned [nan].
Proof.
  do 2 eexists. split; [vm_compute; reflexivity |].
  split; [vm_compute; reflexivity |]. now vm_compute.
Qed.

(** C6 (amended): the correlation is never tested.  A call of [p_var]
    fails only with the [OverflowError] of a squared standard deviation,
    on the same inputs whatever rho is (1.5 included).  When it returns,
    it returns one value per grid point; where the variance of a point is
    negative (and not [-inf]) this value is NaN; and with a rho that is
    not negative, such as 1.5, no variance is negative on weights that are
    not negative. *)
Theorem p_var_fails_on_overflow_only (ws : list (float * float))
    (std_A std_B rho : float) :
  (fails (p_var_call ws std_A std_B rho)
   <-> p_var_overflows ws std_A std_B = true) /\
  (forall x, p_var_call ws std_A std_B rho = Raised x -> x = OverflowError) /\
  (fails (p_var_call ws std_A std_B rho)
   <-> fails (p_var_call ws std_A std_B 1.5)) /\
  (forall vol, p_var_call ws std_A std_B rho = Returned vol ->
     length vol = length ws /\
     forall i e, nth_error ws i = Some e ->
       let var := p_var_variance (sq std_A) (sq std_B) rho e in
       exists v,
         nth_error vol i = Some v /\
         (PrimFloat.ltb var 0 = true -> PrimFloat.is_infinity var = false ->
          PrimFloat.is_nan v = true) /\
         (PrimFloat.ltb (fst e) 0 = false ->
          PrimFloat.ltb (snd e) 0 = false ->
          PrimFloat.ltb rho 0 = false ->
          PrimFloat.ltb var 0 = false)).
Proof.
  rewrite !p_var_call_cases.
  destruct (p_var_overflows ws std_A std_B); simpl.
  - split; [tauto |]. split; [intros x Hx; congruence |].
    split; [tauto |]. intros vol Hv. discriminate.
  - split; [split; [tauto | discriminate] |].
    split; [intros x Hx; discriminate |]. split; [tauto |].
    intros vol Hv. injection Hv as <-.
    split; [apply p_var_length |].
    intros i e Hi. cbv zeta. eexists.
    split; [exact (p_var_nth ws std_A std_B rho i Hi) |].
    split.
    + apply float_pow_half_negative.
    + apply p_var_variance_not_negative.
Qed.

End VolatilityCalls.

(** ** The Sharpe search *)

Section SharpeGeneric.

Context {T : Type} `{Scalar T}.

Lemma sharpe_ratio_nth (r_f : T) (ws : list (row T)) (A B : T * T)
    (rho_AB : T) (i : nat) (e : row T) :
  nth_error ws i = Some e ->
  sharpe_ratio r_f ws A B rho_AB i = sharpe_at r_f A B rho_AB e.
Proof.
  intros Hi. unfold sharpe_ratio, sharpe_at, p_returns, p_var.
  apply nth_error_split in Hi. destruct Hi as [pre [post [-> <-]]].
  now rewrite !nth_map_app.
Qed.

End SharpeGeneric.

Section SharpeExact.

Local Open Scope R_scope.

Lemma R_gtb_cases (x y : R) :
  (gtb x y = true /\ y < x) \/ (gtb x y = false /\ x <= y).
Proof.
  simpl. destruct (Rlt_dec y x); [left | right]; split; auto; lra.
Qed.

(** [spec_scan] ends on a row of maximal Sharpe ratio. *)
Lemma spec_scan_max (s : R * R -> R) (rest : list (R * R)) (cur : R * R) :
  s cur <= s (spec_scan s cur rest) /\
  forall e, In e rest -> s e <= s (spec_scan s cur rest).
Proof.
  revert cur. induction rest as [| x rest IH]; intros cur.
  - simpl. split; [lra | intros e []].
  - cbn [spec_scan].
    destruct (R_gtb_cases (s x) (s cur)) as [[-> Hlt] | [-> Hge]].
    + destruct (IH x) as [Hx Hrest]. split; [lra |].
      intros e [<- | He]; [exact Hx | now apply Hrest].
    + destruct (IH cur) as [Hc Hrest]. split; [exact Hc |].
      intros e [<- | He]; [lra | now apply Hrest].
Qed.

Lemma sharpe_first :
  sharpe_at r_f_R A_R B_R rho_R (grid_point 25 0, 1 - grid_point 25 0) = 4.
Proof.
  unfold sharpe_at, p_var_row, p_var_variance, sq, two, grid_point.
  simpl.
  rewrite (@sqrt_of_square _ (1 / 100));
    [| lra | unfold A_R, B_R, rho_R; simpl; field].
  unfold r_f_R. lra.
Qed.

Ltac sharpe_unfold :=
  unfold sharpe_at, p_var_row, p_var_variance, sq, two, grid_point,
    A_R, B_R, rho_R, r_f_R;
  cbn [fst snd add sub mul div pow_half of_int R_scalar Z.of_nat
       Pos.of_succ_nat Pos.succ Z.sub Z.add Z.opp Z.pos_sub Pos.pred_double].

Ltac sharpe_above := sharpe_unfold; apply above_by_squares; lra.
Ltac sharpe_not_above := sharpe_unfold; apply not_above_by_squares; lra.

Ltac settle_tests :=
  repeat match goal with
  | |- context [gtb ?x ?y] =>
      first [ rewrite (@R_gtb_false x y) by sharpe_not_above
            | rewrite (@R_gtb_true x y) by sharpe_above ]
  end.

Lemma max_sharpe_notebook_R :
  max_sharpe r_f_R grid25 A_R B_R rho_R
  = (Some (grid_point 25 20, 1 - grid_point 25 20), 4).
Proof.
  unfold grid25. cbn [seq map].
  rewrite max_sharpe_seeded; rewrite sharpe_first.
  - unfold last_above. cbn [fold_left]. settle_tests. reflexivity.
  - apply R_eqb_false. unfold zero. simpl. lra.
Qed.

Lemma grid25_nth (i : nat) :
  (i < 25)%nat ->
  nth_error grid25 i = Some (grid_point 25 i, 1 - grid_point 25 i).
Proof. intros Hi. apply (@weights_R_nth 25); lia. Qed.

Lemma sharpe_20_above_first :
  4 < sharpe_ratio r_f_R grid25 A_R B_R rho_R 20.
Proof.
  rewrite (sharpe_ratio_nth r_f_R grid25 A_R B_R rho_R 20
             (grid25_nth (i:=20) ltac:(lia))).
  sharpe_above.
Qed.

Lemma sharpe_5_above_20 :
  sharpe_ratio r_f_R grid25 A_R B_R rho_R 20
  < sharpe_ratio r_f_R grid25 A_R B_R rho_R 5.
Proof.
  rewrite (sharpe_ratio_nth r_f_R grid25 A_R B_R rho_R 20
             (grid25_nth (i:=20) ltac:(lia))).
  rewrite (sharpe_ratio_nth r_f_R grid25 A_R B_R rho_R 5
             (grid25_nth (i:=5) ltac:(lia))).
  sharpe_unfold. apply ratio_lt_by_squares; lra.
Qed.


(** C3: on the notebook's inputs (A = (0.15, 0.18), B = (0.07, 0.10),
    rho = -0.3, 25 grid points, r_f = 0.03) [max_sharpe] returns the row of
    index 20, w_A = 20/24 = 0.8333..., with the ratio 4: exactly so in
    binary64, where the row prints as (0.8333333333333333,
    0.16666666666666674), and in exact arithmetic. *)
Theorem max_sharpe_notebook_value :
  (exists g,
     weights 25 = Returned g /\
     nth_error g 20
     = Some (0.83333333333333326, 0.16666666666666674)%float /\
     max_sharpe r_f_f g A_f B_f rho_f
     = (Some (0.83333333333333326, 0.16666666666666674)%float, 4%float)) /\
  (exists g,
     weights 25 = Returned g /\
     nth_error g 20 = Some (20 / 24, 1 - 20 / 24) /\
     max_sharpe r_f_R g A_R B_R rho_R = (Some (20 / 24, 1 - 20 / 24), 4)).
Proof.
  split.
  - eexists. split; [vm_compute; reflexivity |]. now vm_compute.
  - exists grid25. split; [apply weights_R; lia |].
    assert (Hw : grid_point 25 20 = 20 / 24)
      by (unfold grid_point; simpl; lra).
    rewrite max_sharpe_notebook_R, grid25_nth by lia.
    now rewrite Hw.
Qed.

(** C2 (the code at a failing input): on the notebook's own call the row
    of maximal Sharpe ratio is the one of index 5 (ratio 6.49...), which
    the search of the specification finds; [max_sharpe] returns the row of
    index 20, the last one whose ratio exceeds that of the first row, and
    the first row's ratio 4.  In exact arithmetic too the returned ratio is
    below the ratio of the returned row, which is below that of row 5. *)
Theorem max_sharpe_misses_maximum :
  (exists g,
     weights 25 = Returned g /\
     max_sharpe r_f_f g A_f B_f rho_f = (nth_error g 20, 4%float) /\
     option_map fst (spec_max_sharpe r_f_f g A_f B_f rho_f) = nth_error g 5 /\
     option_map snd (spec_max_sharpe r_f_f g A_f B_f rho_f)
     = Some 6.4927008674860422%float /\
     sharpe_ratio r_f_f g A_f B_f rho_f 20 = 4.0179323719399775%float /\
     sharpe_ratio r_f_f g A_f B_f rho_f 5 = 6.4927008674860422%float) /\
  (exists g,
     weights 25 = Returned g /\
     max_sharpe r_f_R g A_R B_R rho_R = (nth_error g 20, 4) /\
     4 < sharpe_ratio r_f_R g A_R B_R rho_R 20 /\
     sharpe_ratio r_f_R g A_R B_R rho_R 20
     < sharpe_ratio r_f_R g A_R B_R rho_R 5).
Proof.
  split.
  - eexists. split; [vm_compute; reflexivity |]. now vm_compute.
  - exists grid25. split; [apply weights_R; lia |].
    rewrite max_sharpe_notebook_R, grid25_nth by lia.
    split; [reflexivity |].
    split; [apply sharpe_20_above_first | apply sharpe_5_above_20].
Qed.

End SharpeExact.

Section SharpeSeed.

(** C10: on a non-empty grid whose first Sharpe ratio does not compare
    equal to 0, the ratio [max_sharpe] returns is the Sharpe ratio of the
    first grid point, whatever row it returns; on the notebook's call the
    returned ratio 4 is not the ratio of the returned row (index 20). *)
Theorem max_sharpe_ratio_is_first :
  (forall (T : Type) (S : Scalar T), ScalarZero T ->
   forall (r_f : T) (e : row T) (rest : list (row T)) (A B : T * T)
          (rho_AB : T),
     eqb (sharpe_ratio r_f (e :: rest) A B rho_AB 0) zero = false ->
     snd (max_sharpe r_f (e :: rest) A B rho_AB)
     = sharpe_ratio r_f (e :: rest) A B rho_AB 0) /\
  (exists g,
     weights 25 = Returned g /\
     max_sharpe r_f_R g A_R B_R rho_R = (nth_error g 20, 4%R) /\
     sharpe_ratio r_f_R g A_R B_R rho_R 0 = 4%R /\
     (4 < sharpe_ratio r_f_R g A_R B_R rho_R 20)%R).
Proof.
  split.
  - intros T S Z0 r_f e rest A B rho_AB Hs0.
    change (sharpe_ratio r_f (e :: rest) A B rho_AB 0)
      with (sharpe_at r_f A B rho_AB e) in *.
    now rewrite max_sharpe_seeded by exact Hs0.
  - exists grid25. split; [apply weights_R; lia |].
    rewrite max_sharpe_notebook_R, grid25_nth by lia.
    split; [reflexivity |].
    split; [| apply sharpe_20_above_first].
    rewrite (sharpe_ratio_nth r_f_R grid25 A_R B_R rho_R 0
               (grid25_nth (i:=0) ltac:(lia))).
    apply sharpe_first.
Qed.

Lemma max_sharpe_ratio_is_first_witness :
  snd (max_sharpe r_f_f [(0, 1); (0.5, 0.5); (1, 0)]%float A_f B_f rho_f)
  = sharpe_ratio r_f_f [(0, 1); (0.5, 0.5); (1, 0)]%float A_f B_f rho_f 0.
Proof.
  apply (proj1 max_sharpe_ratio_is_first float float_scalar
           float_scalar_zero r_f_f (0, 1)%float
           [(0.5, 0.5); (1, 0)]%float A_f B_f rho_f).
  reflexivity.
Defined.

End SharpeSeed.

(** ** A volatility of zero *)

Section ZeroVolatility.

(** C7 (as stated): a grid point of volatility zero is skipped or refused,
    and no infinity reaches the result.  With std_B = 0 the first point of
    the two-point grid has volatility 0, and the call of [max_sharpe]
    returns that point with an infinite ratio. *)
Lemma max_sharpe_returns_infinity :
  exists g vol,
    weights 2 = Returned g /\
    p_var_call g (snd A_f) 0%float rho_f = Returned vol /\
    nth_error vol 0 = Some 0%float /\
    max_sharpe_call r_f_f g A_f (0.07, 0)%float rho_f
    = Returned (Some (0, 1)%float, infinity).
Proof.
  do 2 eexists. split; [vm_compute; reflexivity |].
  split; [vm_compute; reflexivity |]. now vm_compute.
Qed.

(** C7 (amended): [max_sharpe] has no guard against a volatility of zero.
    A call on a grid with rows fails on the overflow of a squared standard
    deviation only, never because of a volatility; at every grid point of
    volatility zero the quotient (portfolio_return - r_f) / 0 is formed
    and is an infinity or NaN.  When this is the first grid point and the
    quotient is not negative (+inf or NaN), the point is returned together
    with its quotient; when it is a later grid point, and its quotient is
    the only one above a first ratio that does not compare equal to 0, its
    weights are returned, and its quotient is infinite. *)
Theorem max_sharpe_zero_volatility (r_f : float) (e : float * float)
    (rest : list (float * float)) (A B : float * float) (rho_AB : float) :
  let ws := e :: rest in
  let s := sharpe_at r_f A B rho_AB in
  let vol := p_var ws (snd A) (snd B) rho_AB in
  (fails (max_sharpe_call r_f ws A B rho_AB)
   <-> p_var_overflows ws (snd A) (snd B) = true) /\
  (p_var_overflows ws (snd A) (snd B) = true ->
   max_sharpe_call r_f ws A B rho_AB = Raised OverflowError) /\
  (p_var_overflows ws (snd A) (snd B) = false ->
   max_sharpe_call r_f ws A B rho_AB
   = Returned (max_sharpe r_f ws A B rho_AB)) /\
  (forall i x, nth_error ws i = Some x ->
     PrimFloat.eqb (nth i vol zero) 0 = true ->
     sharpe_ratio r_f ws A B rho_AB i = s x /\
     PrimFloat.is_infinity (s x) || PrimFloat.is_nan (s x) = true) /\
  (PrimFloat.eqb (nth 0 vol zero) 0 = true ->
   PrimFloat.ltb (s e) 0 = false ->
   max_sharpe r_f ws A B rho_AB = (Some e, s e)) /\
  (forall pre x post,
     rest = pre ++ x :: post ->
     PrimFloat.eqb (nth (S (length pre)) vol zero) 0 = true ->
     PrimFloat.eqb (s e) 0 = false ->
     Forall (fun y => PrimFloat.ltb (s e) (s y) = false) (pre ++ post) ->
     PrimFloat.ltb (s e) (s x) = true ->
     fst (max_sharpe r_f ws A B rho_AB) = Some x /\
     PrimFloat.is_infinity (s x) = true).
Proof.
  intros ws s vol.
  assert (Hdiv : forall i x, nth_error ws i = Some x ->
            PrimFloat.eqb (nth i vol zero) 0 = true ->
            sharpe_ratio r_f ws A B rho_AB i = s x /\
            PrimFloat.is_infinity (s x) || PrimFloat.is_nan (s x) = true).
  { intros i x Hi Hv.
    pose proof (sharpe_ratio_nth r_f ws A B rho_AB i Hi) as Hs.
    split; [exact Hs |]. fold s in Hs. rewrite <- Hs.
    apply float_div_zero. exact Hv. }
  split; [| split; [| split; [| split; [| split]]]].
  - unfold ws. rewrite max_sharpe_call_cases.
    destruct (p_var_overflows _ _ _); simpl;
      [tauto | split; [tauto | discriminate]].
  - unfold ws. rewrite max_sharpe_call_cases. now intros ->.
  - unfold ws. rewrite max_sharpe_call_cases. now intros ->.
  - exact Hdiv.
  - intros Hv Hs.
    assert (Htop : forall y, PrimFloat.ltb (s e) y = false).
    { intros y.
      destruct (Hdiv 0%nat e eq_refl Hv) as [Hq _]. rewrite <- Hq in *.
      now apply float_div_zero_top. }
    destruct (Hdiv 0%nat e eq_refl Hv) as [_ Hin].
    unfold ws. rewrite (max_sharpe_seeded (T:=float))
      by exact (float_inf_nan_nonzero (s e) Hin).
    fold s. rewrite last_above_stays; [reflexivity |].
    apply Forall_forall. intros y _. apply Htop.
  - intros pre x post Hrest Hv Hnz Hall Hx. split.
    + unfold ws. rewrite (max_sharpe_seeded (T:=float)) by exact Hnz.
      fold s. cbn [fst]. f_equal. rewrite Hrest.
      apply last_above_last; [exact Hx |].
      apply Forall_app in Hall. now destruct Hall.
    + assert (Hi : nth_error ws (S (length pre)) = Some x).
      { unfold ws. rewrite Hrest. cbn [nth_error].
        rewrite nth_error_app2 by lia. now rewrite Nat.sub_diag. }
      destruct (Hdiv _ x Hi Hv) as [_ Hin].
      now rewrite (@float_above_not_nan _ _ Hx), orb_false_r in Hin.
Qed.

Lemma max_sharpe_zero_volatility_witness :
  max_sharpe r_f_f [(0, 1); (1, 0)]%float A_f (0.07, 0)%float rho_f
  = (Some (0, 1)%float,
     sharpe_at r_f_f A_f (0.07, 0)%float rho_f (0, 1)%float) /\
  (fst (max_sharpe r_f_f [(0, 1); (1, 0)]%float (0.15, 0)%float B_f rho_f)
   = Some (1, 0)%float /\
   PrimFloat.is_infinity
     (sharpe_at r_f_f (0.15, 0)%float B_f rho_f (1, 0)%float) = true).
Proof.
  split.
  - destruct (@max_sharpe_zero_volatility r_f_f (0, 1)%float [(1, 0)%float]
                A_f (0.07, 0)%float rho_f) as (_ & _ & _ & _ & Hfirst & _).
    apply Hfirst; reflexivity.
  - destruct (@max_sharpe_zero_volatility r_f_f (0, 1)%float [(1, 0)%float]
                (0.15, 0)%float B_f rho_f) as (_ & _ & _ & _ & _ & Hlater).
    apply (Hlater [] (1, 0)%float []); try reflexivity.
    constructor.
Defined.

End ZeroVolatility.

(** * Further properties of the code *)

(** ** Shape of the grid, for any numbers *)

Section GridShape.

Context {T : Type} `{Scalar T}.

Lemma set_last_length (y : list T) (stop : T) :
  length (set_last y stop) = length y.
Proof.
  induction y as [| v y IH]; [reflexivity |].
  destruct y as [| v' y]; [reflexivity |].
  change (set_last (v :: v' :: y) stop) with (v :: set_last (v' :: y) stop).
  simpl length in *. now rewrite IH.
Qed.

Lemma set_last_last (y : list T) (stop : T) :
  y <> [] -> nth_error (set_last y stop) (length y - 1) = Some stop.
Proof.
  induction y as [| v y IH]; [congruence |]. intros _.
  destruct y as [| v' y]; [reflexivity |].
  change (set_last (v :: v' :: y) stop) with (v :: set_last (v' :: y) stop).
  replace (length (v :: v' :: y) - 1)%nat with (S (length (v' :: y) - 1))
    by (simpl; lia).
  apply IH. discriminate.
Qed.

Lemma linspace_shape (start stop : T) (N : Z) :
  (0 <= N)%Z ->
  exists l,
    linspace start stop N = Returned l /\
    length l = Z.to_nat N /\
    ((2 <= N)%Z -> nth_error l (Z.to_nat N - 1) = Some stop).
Proof.
  intros HN. unfold linspace.
  destruct (Z.ltb_spec N 0); [lia |].
  set (y := map (fun v => add v start) _).
  assert (Hy : length y = Z.to_nat N).
  { unfold y. rewrite length_map.
    destruct (0 <? N - 1)%Z; [destruct (eqb _ _) |]; unfold arange;
      now rewrite !length_map, length_seq. }
  eexists. split; [reflexivity |].
  destruct (Z.ltb_spec 1 N) as [H1 | H1].
  - split; [now rewrite set_last_length |].
    intros _. rewrite <- Hy. apply set_last_last.
    intros ->. simpl in Hy. lia.
  - split; [exact Hy | lia].
Qed.

(** X1: in every number type (binary64 included) the grid generator fails
    exactly on a negative N; otherwise it returns N rows, each of the form
    (w, 1 - w), and for N >= 2 the last row is exactly (1, 1 - 1), because
    the last sample is overwritten by the end point. *)
Theorem weights_shape (N : Z) :
  (fails (weights N) <-> (N < 0)%Z) /\
  ((0 <= N)%Z ->
   exists g,
     weights N = Returned g /\
     length g = Z.to_nat N /\
     Forall (fun e => snd e = sub one (fst e)) g /\
     ((2 <= N)%Z ->
      nth_error g (Z.to_nat N - 1) = Some (one, sub one one))).
Proof.
  split.
  - unfold weights, linspace. destruct (Z.ltb_spec N 0); simpl; [tauto |].
    split; [tauto | lia].
  - intros HN. destruct (linspace_shape zero one HN) as [l [Hl [Hlen Hlast]]].
    unfold weights. rewrite Hl. eexists. split; [reflexivity |].
    split; [now rewrite length_map |]. split.
    + apply Forall_map. now apply Forall_forall.
    + intros H2. now rewrite nth_error_map, (Hlast H2).
Qed.

End GridShape.

(** ** The curve [show_ef2] draws *)

Section Frontier.

Lemma weights_returns (N : Z) :
  (0 <= N)%Z ->
  exists g : list (float * float),
    weights N = Returned g /\ length g = Z.to_nat N.
Proof.
  intros HN. destruct (linspace_shape (T:=float) zero one HN)
    as [l [Hl [Hlen _]]].
  unfold weights. rewrite Hl. eexists. split; [reflexivity |].
  now rewrite length_map.
Qed.

(** X2: [show_ef2] fails exactly when n_points is not positive (the
    [ValueError] of [np.linspace] below zero, that of [@] on the empty
    array at zero) or when the square of a standard deviation or of a
    variance overflows; otherwise it hands n_points points to the plot,
    the volatilities and the returns of the rows of the grid it built, in
    the order of the grid. *)
Theorem show_ef2_outcome (n_points : Z) (r_A std_A r_B std_B rho_AB : float) :
  (fails (show_ef2 n_points r_A std_A r_B std_B rho_AB)
   <-> (n_points <= 0)%Z
       \/ overflows std_A || overflows std_B
          || overflows (sq std_A) || overflows (sq std_B) = true) /\
  (forall vol rets,
     show_ef2 n_points r_A std_A r_B std_B rho_AB = Returned (vol, rets) ->
     (1 <= n_points)%Z /\
     length vol = Z.to_nat n_points /\
     length rets = Z.to_nat n_points /\
     exists ws,
       weights n_points = Returned ws /\
       rets = p_returns ws r_A r_B /\
       vol = p_var ws std_A std_B rho_AB).
Proof.
  unfold show_ef2.
  destruct (Z.ltb_spec n_points 0) as [Hneg | Hpos].
  - assert (Hw : weights (T:=float) n_points = Raised ValueError).
    { unfold weights, linspace.
      destruct (Z.ltb_spec n_points 0); [reflexivity | lia]. }
    rewrite Hw. simpl. split; [split; [intros _; left; lia | tauto] |].
    intros vol rets Hr. discriminate.
  - destruct (weights_returns Hpos) as [g [Hg Hlen]]. rewrite Hg.
    cbn [bind]. destruct g as [| e g].
    + simpl in Hlen. assert (n_points = 0%Z) by lia. subst n_points.
      simpl. split; [split; [intros _; left; lia | tauto] |].
      intros vol rets Hr. discriminate.
    + assert (H1 : (1 <= n_points)%Z) by (simpl in Hlen; lia).
      cbn [p_returns_call bind]. rewrite p_var_call_cases.
      unfold p_var_overflows.
      rewrite orb_assoc.
      destruct (overflows std_A || overflows std_B
                || overflows (sq std_A) || overflows (sq std_B));
        cbn [fails bind].
      * split; [split; [intros _; now right | tauto] |].
        intros vol rets Hr. discriminate.
      * split; [split; [tauto | intros [Hn | Hf]; [lia | discriminate]] |].
        intros vol rets Hr.
        assert (Hvr : vol = p_var (e :: g) std_A std_B rho_AB /\
                      rets = p_returns (e :: g) r_A r_B)
          by (split; congruence).
        destruct Hvr as [-> ->]. split; [exact H1 |].
        rewrite p_var_length, p_returns_length.
        split; [exact Hlen |]. split; [exact Hlen |].
        exists (e :: g). repeat split.
Qed.

End Frontier.

(** ** The sign of a volatility, in binary64 *)

Section VolatilitySign.

Lemma float_pow_half_not_negative (x : float) :
  PrimFloat.ltb (float_pow_half x) 0 = false.
Proof.
  unfold float_pow_half.
  destruct (PrimFloat.eqb x neg_infinity); [reflexivity |].
  destruct (PrimFloat.eqb x 0); [reflexivity |].
  apply float_not_negative_SF. rewrite FloatAxioms.sqrt_spec.
  unfold SF64sqrt, SFsqrt.
  destruct (Prim2SF x) as [s | s | | s m e]; try reflexivity.
  - now destruct s.
  - destruct s; [reflexivity |].
    destruct (SFsqrt_core_binary prec emax (Z.pos m) e) as [[mz ez] lz].
    apply binary_round_aux_not_negative.
Qed.

(** X17: in binary64 no volatility [p_var] returns is below zero: each is
    NaN, a zero or a positive number, whatever the weights, the standard
    deviations and the correlation are; so a negative variance shows as
    NaN, never as a negative volatility. *)
Theorem p_var_never_negative (ws : list (float * float))
    (std_A std_B rho_AB : float) :
  Forall (fun v => PrimFloat.ltb v 0 = false) (p_var ws std_A std_B rho_AB) /\
  (forall vol, p_var_call ws std_A std_B rho_AB = Returned vol ->
     Forall (fun v => PrimFloat.ltb v 0 = false) vol).
Proof.
  assert (Hall : Forall (fun v => PrimFloat.ltb v 0 = false)
                        (p_var ws std_A std_B rho_AB)).
  { unfold p_var. cbv zeta. apply Forall_map, Forall_forall.
    intros e _. apply float_pow_half_not_negative. }
  split; [exact Hall |].
  intros vol Hvol. rewrite p_var_call_cases in Hvol.
  destruct (p_var_overflows ws std_A std_B); [discriminate |].
  now injection Hvol as <-.
Qed.

End VolatilitySign.

(** ** What the Sharpe search returns, for any numbers *)

Section Search.

Context {T : Type} `{Scalar T}.

Variables (r_f : T) (A B : T * T) (rho_AB : T).

Local Abbreviation s := (sharpe_at r_f A B rho_AB).
Local Abbreviation step := (scan_step r_f A B rho_AB).

(** After the loop has run over [l], [max_weights] holds a row of [l] or
    what it held before, and it holds a row as soon as [l] is not empty. *)
Lemma scan_max_weights (l : list (row T)) (st : best T) :
  let st' := fold_left step l st in
  (forall w, max_weights st' = Some w ->
     In w l \/ max_weights st = Some w) /\
  (max_weights st' = None -> l = [] /\ max_weights st = None).
Proof.
  revert st. induction l as [| e l IH]; intros st; simpl fold_left.
  - split; [intros w Hw; now right | auto].
  - destruct (IH (step st e)) as [IH1 IH2]. split.
    + intros w Hw. destruct (IH1 w Hw) as [Hin | Hst].
      * left. now right.
      * unfold scan_step in Hst. simpl max_weights in Hst.
        destruct (gtb _ _); [injection Hst as <-; left; now left |].
        destruct (max_weights st) as [w0 |]; [now right |].
        injection Hst as <-. left. now left.
    + intros Hn. destruct (IH2 Hn) as [_ Hst]. exfalso.
      unfold scan_step in Hst. simpl max_weights in Hst.
      destruct (gtb _ _); [discriminate |].
      destruct (max_weights st); discriminate.
Qed.

(** X3: on a grid that is not empty, the weights [max_sharpe] returns are
    a row of the grid: the integer the local [max_weights] starts from
    never reaches the result. *)
Theorem max_sharpe_returns_grid_row (e : row T) (rest : list (row T)) :
  exists w,
    fst (max_sharpe r_f (e :: rest) A B rho_AB) = Some w /\
    In w (e :: rest).
Proof.
  rewrite max_sharpe_rows. cbv zeta. cbn [fst].
  destruct (scan_max_weights (e :: rest) (Best None zero)) as [H1 H2].
  cbv zeta in H1, H2.
  destruct (max_weights (fold_left step (e :: rest) (Best None zero)))
    as [w |].
  - exists w. split; [reflexivity |].
    destruct (H1 w eq_refl) as [Hin | Hst]; [exact Hin | discriminate].
  - destruct (H2 eq_refl) as [Hnil _]. discriminate.
Qed.

(** While every ratio met compares equal to [0], the running ratio is
    seeded again and still compares equal to [0]. *)
Lemma scan_zero_prefix `{!ScalarZero T} (l : list (row T)) (st : best T) :
  eqb (max_sharpe_ratio st) zero = true ->
  Forall (fun x => eqb (s x) zero = true) l ->
  eqb (max_sharpe_ratio (fold_left step l st)) zero = true.
Proof.
  revert st. induction l as [| e l IH]; intros st Hst Hl; [exact Hst |].
  simpl fold_left. inversion Hl as [| ? ? He Hl']; subst.
  apply IH; [| exact Hl'].
  unfold scan_step. simpl max_sharpe_ratio. now rewrite Hst.
Qed.

Lemma scan_ratio_stuck (l : list (row T)) (st : best T) :
  eqb (max_sharpe_ratio st) zero = false ->
  max_sharpe_ratio (fold_left step l st) = max_sharpe_ratio st.
Proof.
  revert st. induction l as [| e l IH]; intros st Hst; [reflexivity |].
  simpl fold_left. rewrite IH.
  - unfold scan_step. simpl max_sharpe_ratio. now rewrite Hst.
  - unfold scan_step. simpl max_sharpe_ratio. now rewrite Hst.
Qed.

(** X4: the ratio [max_sharpe] returns is the Sharpe ratio of the first
    row whose ratio does not compare equal to 0, because the test
    [max_sharpe_ratio == 0] seeds the running ratio again after every row
    of ratio 0; on a grid all of whose ratios compare equal to 0, so does
    the returned ratio. *)
Theorem max_sharpe_ratio_first_nonzero `{!ScalarZero T}
    (pre post : list (row T)) (e : row T) :
  Forall (fun x => eqb (s x) zero = true) pre ->
  (eqb (s e) zero = false ->
   snd (max_sharpe r_f (pre ++ e :: post) A B rho_AB) = s e) /\
  eqb (snd (max_sharpe r_f pre A B rho_AB)) zero = true.
Proof.
  intros Hpre.
  assert (Hz : eqb (max_sharpe_ratio (fold_left step pre (Best None zero)))
                   zero = true)
    by (apply scan_zero_prefix; [apply eqb_zero_zero | exact Hpre]).
  split.
  - intros He. rewrite max_sharpe_rows. cbv zeta. simpl snd.
    rewrite fold_left_app. simpl fold_left.
    set (st := fold_left step pre (Best None zero)) in *.
    assert (Hst : max_sharpe_ratio (step st e) = s e)
      by (unfold scan_step; cbn [max_sharpe_ratio]; now rewrite Hz).
    rewrite scan_ratio_stuck; rewrite Hst; [reflexivity | exact He].
  - rewrite max_sharpe_rows. exact Hz.
Qed.

(** The row [last_above] ends on. *)
Lemma last_above_cases (s0 : T) (rest : list (row T)) (cur : row T) :
  (last_above s s0 cur rest = cur /\
   Forall (fun x => gtb (s x) s0 = false) rest) \/
  (exists pre x post,
     rest = pre ++ x :: post /\
     gtb (s x) s0 = true /\
     Forall (fun y => gtb (s y) s0 = false) post /\
     last_above s s0 cur rest = x).
Proof.
  revert cur. induction rest as [| e rest IH]; intros cur.
  - left. split; [reflexivity | constructor].
  - unfold last_above. simpl fold_left.
    change (fold_left (fun acc e0 => if gtb (s e0) s0 then e0 else acc) rest)
      with (fun c => last_above s s0 c rest). cbv beta.
    destruct (gtb (s e) s0) eqn:He.
    + destruct (IH e) as [[Hl Hall] | [pre [x [post [-> [Hx [Hp Hl]]]]]]].
      * right. exists [], e, rest. repeat split; assumption.
      * right. exists (e :: pre), x, post. repeat split; assumption.
    + destruct (IH cur) as [[Hl Hall] | [pre [x [post [-> [Hx [Hp Hl]]]]]]].
      * left. split; [exact Hl | now constructor].
      * right. exists (e :: pre), x, post. repeat split; assumption.
Qed.

(** X5: when the first Sharpe ratio does not compare equal to 0,
    [max_sharpe] returns that ratio together with the LAST row whose ratio
    exceeds it, and with the first row when no ratio exceeds it. *)
Theorem max_sharpe_returns_last_above `{!ScalarZero T}
    (e : row T) (rest : list (row T)) :
  eqb (s e) zero = false ->
  (max_sharpe r_f (e :: rest) A B rho_AB = (Some e, s e) /\
   Forall (fun x => gtb (s x) (s e) = false) rest) \/
  (exists pre x post,
     rest = pre ++ x :: post /\
     gtb (s x) (s e) = true /\
     Forall (fun y => gtb (s y) (s e) = false) post /\
     max_sharpe r_f (e :: rest) A B rho_AB = (Some x, s e)).
Proof.
  intros He. rewrite max_sharpe_seeded by exact He.
  destruct (last_above_cases (sharpe_at r_f A B rho_AB e) rest e)
    as [[Hl Hall] | [pre [x [post [Hr [Hx [Hp Hl]]]]]]].
  - left. rewrite Hl. now split.
  - right. exists pre, x, post. rewrite Hl. now repeat split.
Qed.

Lemma spec_scan_stays (cur : row T) (rest : list (row T)) :
  Forall (fun x => gtb (s x) (s cur) = false) rest ->
  spec_scan s cur rest = cur.
Proof.
  induction 1 as [| x rest Hx _ IH]; [reflexivity |].
  simpl. now rewrite Hx.
Qed.

(** X6: when no row has a Sharpe ratio above that of the first row (and
    the first ratio does not compare equal to 0), [max_sharpe] returns the
    first row with its own ratio, which is what the search for the first
    maximum returns: in this case the code is right. *)
Theorem max_sharpe_right_when_first_is_best `{!ScalarZero T}
    (e : row T) (rest : list (row T)) :
  eqb (s e) zero = false ->
  Forall (fun x => gtb (s x) (s e) = false) rest ->
  max_sharpe r_f (e :: rest) A B rho_AB = (Some e, s e) /\
  spec_max_sharpe r_f (e :: rest) A B rho_AB = Some (e, s e).
Proof.
  intros He Hall. split.
  - rewrite max_sharpe_seeded by exact He.
    destruct (last_above_cases (sharpe_at r_f A B rho_AB e) rest e)
      as [[Hl _] | [pre [x [post [-> [Hx _]]]]]]; [now rewrite Hl |].
    apply Forall_app in Hall. destruct Hall as [_ Hall].
    inversion Hall; subst. congruence.
  - unfold spec_max_sharpe. cbv zeta.
    now rewrite spec_scan_stays by exact Hall.
Qed.

End Search.

Lemma max_sharpe_ratio_first_nonzero_witness :
  (eqb (sharpe_at 0.07%float A_f B_f rho_f (0.5, 0.5)%float) zero = false ->
   snd (max_sharpe 0.07%float ([(0, 1)%float] ++ (0.5, 0.5)%float
                                 :: [(1, 0)%float]) A_f B_f rho_f)
   = sharpe_at 0.07%float A_f B_f rho_f (0.5, 0.5)%float) /\
  eqb (snd (max_sharpe 0.07%float [(0, 1)%float] A_f B_f rho_f)) zero = true.
Proof.
  apply (@max_sharpe_ratio_first_nonzero float _ 0.07%float A_f B_f rho_f
           float_scalar_zero [(0, 1)%float] [(1, 0)%float] (0.5, 0.5)%float).
  constructor; [reflexivity | constructor].
Defined.

Lemma max_sharpe_returns_last_above_witness :
  (max_sharpe r_f_f ((0, 1) :: [(0.5, 0.5); (1, 0)])%float A_f B_f rho_f
   = (Some (0, 1)%float, sharpe_at r_f_f A_f B_f rho_f (0, 1)%float) /\
   Forall (fun x => gtb (sharpe_at r_f_f A_f B_f rho_f x)
                        (sharpe_at r_f_f A_f B_f rho_f (0, 1)%float) = false)
          [(0.5, 0.5); (1, 0)]%float) \/
  (exists pre x post,
     [(0.5, 0.5); (1, 0)]%float = pre ++ x :: post /\
     gtb (sharpe_at r_f_f A_f B_f rho_f x)
         (sharpe_at r_f_f A_f B_f rho_f (0, 1)%float) = true /\
     Forall (fun y => gtb (sharpe_at r_f_f A_f B_f rho_f y)
                          (sharpe_at r_f_f A_f B_f rho_f (0, 1)%float)
                      = false) post /\
     max_sharpe r_f_f ((0, 1) :: [(0.5, 0.5); (1, 0)])%float A_f B_f rho_f
     = (Some x, sharpe_at r_f_f A_f B_f rho_f (0, 1)%float)).
Proof.
  apply (@max_sharpe_returns_last_above float _ r_f_f A_f B_f rho_f
           float_scalar_zero (0, 1)%float [(0.5, 0.5); (1, 0)]%float).
  reflexivity.
Defined.

Lemma max_sharpe_right_when_first_is_best_witness :
  max_sharpe r_f_f ((0, 1) :: [(1, 0)])%float A_f B_f rho_f
  = (Some (0, 1)%float, sharpe_at r_f_f A_f B_f rho_f (0, 1)%float) /\
  spec_max_sharpe r_f_f ((0, 1) :: [(1, 0)])%float A_f B_f rho_f
  = Some ((0, 1)%float, sharpe_at r_f_f A_f B_f rho_f (0, 1)%float).
Proof.
  apply (@max_sharpe_right_when_first_is_best float _ r_f_f A_f B_f rho_f
           float_scalar_zero (0, 1)%float [(1, 0)%float]).
  - reflexivity.
  - constructor; [reflexivity | constructor].
Defined.

(** ** A first ratio that is NaN, in binary64 *)

Section NaNFirst.

(** X16: in binary64, when the Sharpe ratio of the first grid point is NaN
    (for instance 0/0: a volatility of zero with an expected return equal
    to r_f), [max_sharpe] returns the first row and NaN whatever the rest
    of the grid holds, since no ratio compares greater than NaN. *)
Theorem max_sharpe_nan_first (r_f : float) (e : float * float)
    (rest : list (float * float)) (A B : float * float) (rho_AB : float) :
  PrimFloat.is_nan (sharpe_ratio r_f (e :: rest) A B rho_AB 0) = true ->
  max_sharpe r_f (e :: rest) A B rho_AB
  = (Some e, sharpe_ratio r_f (e :: rest) A B rho_AB 0).
Proof.
  intros Hnan.
  change (sharpe_ratio r_f (e :: rest) A B rho_AB 0)
    with (sharpe_at r_f A B rho_AB e) in *.
  assert (Hnz : eqb (sharpe_at r_f A B rho_AB e) zero = false).
  { apply (@float_inf_nan_nonzero (sharpe_at r_f A B rho_AB e)).
    rewrite Hnan. apply orb_true_r. }
  rewrite (max_sharpe_seeded (T:=float)) by exact Hnz.
  f_equal. f_equal. unfold last_above.
  induction rest as [| x rest IH]; [reflexivity |].
  simpl fold_left.
  change (gtb (sharpe_at r_f A B rho_AB x) (sharpe_at r_f A B rho_AB e))
    with (PrimFloat.ltb (sharpe_at r_f A B rho_AB e)
                        (sharpe_at r_f A B rho_AB x)).
  rewrite (@float_nan_not_below _ _ Hnan). exact IH.
Qed.

Lemma max_sharpe_nan_first_witness :
  max_sharpe 0.03%float [(0, 1); (0.5, 0.5); (1, 0)]%float
             A_f (0.03, 0)%float rho_f
  = (Some (0, 1)%float,
     sharpe_ratio 0.03%float [(0, 1); (0.5, 0.5); (1, 0)]%float
                  A_f (0.03, 0)%float rho_f 0).
Proof.
  apply (@max_sharpe_nan_first 0.03%float (0, 1)%float
           [(0.5, 0.5); (1, 0)]%float A_f (0.03, 0)%float rho_f).
  reflexivity.
Defined.

End NaNFirst.
